(** * FosterLinks: the role gate and the route table of [AppRouter.tsx]

  A shallow embedding of [src/components/AppRouter.tsx]:
  - [Gate.ProtectedRoute], the access gate (lines 44-84), as a function of
    the authentication context it reads through [useAuth], written in a
    small console monad because three of its four branches call
    [console.log];
  - [App.routes], the route table (lines 93-174), as the list of route
    objects that the [<Route>] children of [<Routes>] denote;
  - [Router], the route selection that [<Routes>] of react-router v6
    performs on that list ([matchRoutes]: flatten, score, rank, decode the
    pathname, first branch whose compiled pattern matches).  react-router is
    a dependency of the repository, not part of it; its functions are
    transcribed under their own names. *)

From Stdlib Require Import Bool Arith ZArith List Ascii String Lia.
From Stdlib Require Import Sorted Permutation.
Import ListNotations.

Local Open Scope string_scope.
Local Open Scope list_scope.

(* ------------------------------------------------------------------ *)
(** ** JavaScript values read by the gate *)

Module Js.

(** The values [currentUser] and [userRole] can hold: the context is typed
    outside this file, so all that the gate can observe is kept:
    [null], [undefined], a string, or an object (identified by a reference). *)
Inductive value : Type :=
| VUndefined
| VNull
| VStr (s : string)
| VObj (ref : nat).

(** ToBoolean, as used by [!currentUser] and [userRole && ...]. *)
Definition truthy (v : value) : bool :=
  match v with
  | VUndefined | VNull => false
  | VStr s => negb (s =? "")
  | VObj _ => true
  end.

(** ToString, as used by the template literals of the log lines. *)
Definition toString (v : value) : string :=
  match v with
  | VUndefined => "undefined"
  | VNull => "null"
  | VStr s => s
  | VObj _ => "[object Object]"
  end.

(** SameValueZero of a string against a value: strings are equal when they
    are the same sequence of code units, nothing else equals a string. *)
Definition sameValueZero (r : string) (v : value) : bool :=
  match v with
  | VStr s => r =? s
  | _ => false
  end.

(** [Array.prototype.includes] on a [string[]]. *)
Definition includes (xs : list string) (v : value) : bool :=
  existsb (fun r => sameValueZero r v) xs.

(** [Array.prototype.join]. *)
Definition join (sep : string) (xs : list string) : string :=
  String.concat sep xs.

End Js.

(* ------------------------------------------------------------------ *)
(** ** The console: the only state the component writes *)

Module Console.

(** A computation that may append lines to the console buffer. *)
Definition M (A : Type) : Type := list string -> A * list string.

Definition ret {A} (a : A) : M A := fun out => (a, out).

Definition bind {A B} (m : M A) (k : A -> M B) : M B :=
  fun out => let (a, out') := m out in k a out'.

(** [console.log(line)]. *)
Definition log (line : string) : M unit := fun out => (tt, out ++ [line]).

Definition run {A} (m : M A) (out : list string) : A * list string := m out.

(** What a computation returns, and what it prints from an empty buffer. *)
Definition result {A} (m : M A) : A := fst (m []).
Definition printed {A} (m : M A) : list string := snd (m []).

End Console.

Notation "x <- m ;; k" := (Console.bind m (fun x => k))
(at level 61, m at next level, right associativity).
Notation "m ;;; k" := (Console.bind m (fun _ => k))
(at level 61, right associativity).

(* ------------------------------------------------------------------ *)
(** ** The access gate *)

Module Gate.
Import Js.

(** What [useAuth()] hands to the gate: [{ currentUser, userRole, loading }]. *)
Record AuthContext : Type := mkAuth {
  currentUser : value;
  userRole : value;
  loading : bool
}.

(** What the component returns: the spinner block of lines 48-66, a
    [<Navigate to=... />], or the fragment [<>{children}</>]. *)
Inductive Outcome (A : Type) : Type :=
| Placeholder
| Navigate (to : string)
| Fragment (children : A).
Arguments Placeholder {A}.
Arguments Navigate {A} to.
Arguments Fragment {A} children.

(** [ProtectedRoute], lines 44-84, branch for branch. *)
Definition ProtectedRoute {A : Type} (children : A) (allowedRoles : list string)
           (auth : AuthContext) : Console.M (Outcome A) :=
  if loading auth then
    Console.ret Placeholder
  else if negb (truthy (currentUser auth)) then
    Console.log "User not authenticated, redirecting to login" ;;;
    Console.ret (Navigate "/login")
  else if truthy (userRole auth) && includes allowedRoles (userRole auth) then
    Console.log ("User has required role: " ++ toString (userRole auth)
                 ++ ", allowing access") ;;;
    Console.ret (Fragment children)
  else
    Console.log ("User role " ++ toString (userRole auth)
                 ++ " not in allowed roles: " ++ join ", " allowedRoles) ;;;
    Console.ret (Navigate "/unauthorized").

(** The outcome alone, the console left aside. *)
Definition gate {A : Type} (children : A) (allowedRoles : list string)
           (auth : AuthContext) : Outcome A :=
  Console.result (ProtectedRoute children allowedRoles auth).

(** "Present" and "absent" in the words of the specification. *)
Definition present (v : value) : Prop := truthy v = true.
Definition absent (v : value) : Prop := truthy v = false.

(** [userRole] is one of the strings of [allowedRoles]. *)
Definition member (v : value) (allowedRoles : list string) : Prop :=
  exists r, In r allowedRoles /\ v = VStr r.

End Gate.

(* ------------------------------------------------------------------ *)
(** ** Route selection, as [<Routes>] of react-router v6 performs it

    [matchRoutes] flattens the route objects into branches, gives each branch
    a score, sorts the branches (higher score first, declaration order among
    equal scores) and returns the first branch whose compiled pattern matches
    the pathname.  The table of this repository has no nested routes, no index
    routes and no optional segments, and its patterns are ASCII, so a branch
    carries exactly one route, leaf patterns are matched to the end of the
    pathname and case folding is that of ASCII letters.  A string stands for
    the JavaScript string through its UTF-8 bytes.  Before matching, the
    pathname is percent-decoded segment by segment ([decodePath]); a pathname
    that cannot be decoded is matched as it is. *)

Module Router.

(** *** Strings as the library handles them *)

Definition slash : ascii := "/"%char.
Definition star : ascii := "*"%char.
Definition colon : ascii := ":"%char.

Definition between (lo hi n : nat) : bool := Nat.leb lo n && Nat.leb n hi.

(** Case folding of the [i] flag on ASCII letters. *)
Definition lower (c : ascii) : ascii :=
  let n := nat_of_ascii c in
  if between 65 90 n then ascii_of_nat (n + 32) else c.

(** The class [[\w-]] of parameter names. *)
Definition wordchar (c : ascii) : bool :=
  let n := nat_of_ascii c in
  between 48 57 n || between 65 90 n || between 97 122 n
  || Nat.eqb n 95 || Nat.eqb n 45.

(** The characters that [.] does not match: line feed and carriage return. *)
Definition lineTerminator (c : ascii) : bool :=
  let n := nat_of_ascii c in Nat.eqb n 10 || Nat.eqb n 13.

(** [s.split("/")]. *)
Fixpoint split (s : string) : list string :=
  match s with
  | EmptyString => [""]
  | String c s' =>
      match split s' with
      | [] => [""]
      | seg :: rest =>
          if Ascii.eqb c slash then "" :: seg :: rest
          else String c seg :: rest
      end
  end.

Definition startsWith (s : string) (c : ascii) : bool :=
  match s with
  | String d _ => Ascii.eqb d c
  | EmptyString => false
  end.

Fixpoint endsWith (s : string) (c : ascii) : bool :=
  match s with
  | EmptyString => false
  | String d EmptyString => Ascii.eqb d c
  | String _ s' => endsWith s' c
  end.

(** Every run of two or more slashes replaced by one slash. *)
Fixpoint collapseSlashes (s : string) : string :=
  match s with
  | EmptyString => EmptyString
  | String c s' =>
      let t := collapseSlashes s' in
      if Ascii.eqb c slash && startsWith t slash then t else String c t
  end.

(** [joinPaths(paths)]: the paths joined with a slash, runs of slashes
    collapsed. *)
Definition joinPaths (paths : list string) : string :=
  collapseSlashes (String.concat "/" paths).

(** The first replacement of [compilePath]: a final star is dropped, and the
    slashes that end the pattern with it. *)
Fixpoint dropFinalStar (s : string) : string :=
  match s with
  | EmptyString => EmptyString
  | String c EmptyString => if Ascii.eqb c star then EmptyString else s
  | String c s' => String c (dropFinalStar s')
  end.

Fixpoint dropTrailingSlashes (s : string) : string :=
  match s with
  | EmptyString => EmptyString
  | String c s' =>
      let t := dropTrailingSlashes s' in
      if Ascii.eqb c slash && (t =? "") then EmptyString else String c t
  end.

(** The second replacement of [compilePath] drops the leading slashes (and
    puts a single one back). *)
Fixpoint dropLeadingSlashes (s : string) : string :=
  match s with
  | String c s' => if Ascii.eqb c slash then dropLeadingSlashes s' else s
  | EmptyString => EmptyString
  end.

Fixpoint dropWhile (p : ascii -> bool) (s : string) : string :=
  match s with
  | String c s' => if p c then dropWhile p s' else s
  | EmptyString => EmptyString
  end.

(** *** Route objects and branches *)

Record RouteObject (E : Type) : Type := mkRoute {
  path : string;
  element : E
}.
Arguments mkRoute {E} path element.
Arguments path {E} r.
Arguments element {E} r.

Record RouteMeta (E : Type) : Type := mkMeta {
  relativePath : string;
  caseSensitive : bool;
  childrenIndex : nat;
  route : RouteObject E
}.
Arguments mkMeta {E} relativePath caseSensitive childrenIndex route.
Arguments relativePath {E} r.
Arguments caseSensitive {E} r.
Arguments childrenIndex {E} r.
Arguments route {E} r.

Record RouteBranch (E : Type) : Type := mkBranch {
  branchPath : string;
  score : Z;
  routesMeta : RouteMeta E
}.
Arguments mkBranch {E} branchPath score routesMeta.
Arguments branchPath {E} r.
Arguments score {E} r.
Arguments routesMeta {E} r.

(** *** Scores *)

Definition dynamicSegmentValue : Z := 3.
Definition indexRouteValue : Z := 2.
Definition emptySegmentValue : Z := 1.
Definition staticSegmentValue : Z := 10.
Definition splatPenalty : Z := -2.

Definition isSplat (s : string) : bool := s =? "*".

Fixpoint allWord (s : string) : bool :=
  match s with
  | EmptyString => true
  | String c s' => wordchar c && allWord s'
  end.

(** [paramRe = /^:[\w-]+$/]. *)
Definition paramRe (segment : string) : bool :=
  match segment with
  | String c rest => Ascii.eqb c colon && negb (rest =? "") && allWord rest
  | EmptyString => false
  end.

Definition segmentValue (segment : string) : Z :=
  if paramRe segment then dynamicSegmentValue
  else if segment =? "" then emptySegmentValue
  else staticSegmentValue.

Definition computeScore (p : string) (index : bool) : Z :=
  let segments := split p in
  let initialScore := Z.of_nat (List.length segments) in
  let initialScore :=
    if existsb isSplat segments then (initialScore + splatPenalty)%Z
    else initialScore in
  let initialScore :=
    if index then (initialScore + indexRouteValue)%Z else initialScore in
  fold_left (fun sc segment => (sc + segmentValue segment)%Z)
            (filter (fun s => negb (isSplat s)) segments) initialScore.

(** *** Flattening and ranking *)

Fixpoint flattenFrom {E} (index : nat) (routes : list (RouteObject E))
  : list (RouteBranch E) :=
  match routes with
  | [] => []
  | r :: rest =>
      let meta := mkMeta (path r) false index r in
      let p := joinPaths [""; relativePath meta] in
      mkBranch p (computeScore p false) meta :: flattenFrom (S index) rest
  end.

(** [flattenRoutes(routes)] at the top level ([parentPath = ""]). *)
Definition flattenRoutes {E} (routes : list (RouteObject E))
  : list (RouteBranch E) := flattenFrom 0 routes.

(** The comparison function handed to [branches.sort]: negative when [a]
    goes first.  Branches of a flat table are siblings, so [compareIndexes]
    is the difference of their positions. *)
Definition compareBranches {E} (a b : RouteBranch E) : Z :=
  if negb (score a =? score b)%Z then (score b - score a)%Z
  else (Z.of_nat (childrenIndex (routesMeta a))
        - Z.of_nat (childrenIndex (routesMeta b)))%Z.

Fixpoint insertBranch {E} (a : RouteBranch E) (l : list (RouteBranch E))
  : list (RouteBranch E) :=
  match l with
  | [] => [a]
  | b :: l' =>
      if (compareBranches a b <=? 0)%Z then a :: b :: l'
      else b :: insertBranch a l'
  end.

(** [a] may stand before [b] in the sorted array. *)
Definition goesFirst {E} (a b : RouteBranch E) : Prop :=
  (compareBranches a b <= 0)%Z.

(** [rankRouteBranches]: [Array.prototype.sort] is stable, which insertion
    from the right reproduces. *)
Definition rankRouteBranches {E} (branches : list (RouteBranch E))
  : list (RouteBranch E) := fold_right insertBranch [] branches.

(** *** Compiled patterns

    [compilePath] builds a regular expression; what it can build from a
    pattern without optional segments is a sequence of literal characters and
    parameters (one or more characters other than a slash), closed by one of
    three endings: any run of slashes up to the end ([EndSlashes], a pattern
    without a final star); any characters up to the end ([SplatAll], the
    patterns [*] and [/*]); a slash and at least one character, or any run of
    slashes, up to the end ([SplatRest], any other pattern with a final
    star). *)

Inductive token : Type :=
| TChar (c : ascii)
| TParam.

Inductive ending : Type :=
| EndSlashes
| SplatAll
| SplatRest.

Record Pattern : Type := mkPattern {
  tokens : list token;
  closing : ending;
  ignoreCase : bool
}.

Definition literal (s : string) : list token :=
  map TChar (list_ascii_of_string s).

(** One ["/" segment] of the pattern: [/:name] becomes a parameter, the rest
    is literal. *)
Definition segmentTokens (segment : string) : list token :=
  TChar slash ::
  match segment with
  | String c rest =>
      if Ascii.eqb c colon && negb (dropWhile wordchar rest =? rest)
      then TParam :: literal (dropWhile wordchar rest)
      else literal segment
  | EmptyString => []
  end.

Definition compilePath (p : string) (caseSensitive : bool) : Pattern :=
  let body := dropLeadingSlashes (dropTrailingSlashes (dropFinalStar p)) in
  let toks := flat_map segmentTokens (tl (split (String slash body))) in
  let close :=
    if endsWith p star
    then if (p =? "*") || (p =? "/*") then SplatAll else SplatRest
    else EndSlashes in
  mkPattern toks close (negb caseSensitive).

(** *** Matching *)

Definition sameChar (ignoreCase : bool) (a b : ascii) : bool :=
  if ignoreCase then Ascii.eqb (lower a) (lower b) else Ascii.eqb a b.


(** The two other characters that the dot of a regular expression does not
    match, the line separator U+2028 and the paragraph separator U+2029, are
    three bytes each in UTF-8: 226, 128, and 168 or 169. *)
Definition lineSeparatorAt (inp : list ascii) : bool :=
  match inp with
  | a :: b :: c :: _ =>
      Nat.eqb (nat_of_ascii a) 226 && Nat.eqb (nat_of_ascii b) 128
      && (Nat.eqb (nat_of_ascii c) 168 || Nat.eqb (nat_of_ascii c) 169)
  | _ => false
  end.

(** Any run of characters the dot matches, up to the end of the input: no
    line feed, no carriage return, no line or paragraph separator in it. *)
Fixpoint dotAll (inp : list ascii) : bool :=
  match inp with
  | [] => true
  | c :: rest =>
      negb (lineTerminator c) && negb (lineSeparatorAt inp) && dotAll rest
  end.

Definition matchEnding (e : ending) (inp : list ascii) : bool :=
  match e with
  | EndSlashes => forallb (Ascii.eqb slash) inp
  | SplatAll => dotAll inp
  | SplatRest =>
      match inp with
      | c :: x :: xs =>
          (Ascii.eqb c slash && dotAll (x :: xs))
          || forallb (Ascii.eqb slash) inp
      | _ => forallb (Ascii.eqb slash) inp
      end
  end.

(** Does the anchored expression match the whole input?  A parameter takes
    one or more characters other than ["/"], every split being tried. *)
Fixpoint matchTokens (ic : bool) (e : ending) (ts : list token)
  : list ascii -> bool :=
  match ts with
  | [] => matchEnding e
  | TChar c :: ts' =>
      fun inp =>
        match inp with
        | x :: xs => sameChar ic c x && matchTokens ic e ts' xs
        | [] => false
        end
  | TParam :: ts' =>
      fix param (inp : list ascii) : bool :=
        match inp with
        | x :: xs =>
            negb (Ascii.eqb x slash) && (matchTokens ic e ts' xs || param xs)
        | [] => false
        end
  end.

(** [matchPath({ path, caseSensitive, end: true }, pathname) != null]. *)
Definition matchPath (p : string) (caseSensitive : bool) (pathname : string)
  : bool :=
  let c := compilePath p caseSensitive in
  matchTokens (ignoreCase c) (closing c) (tokens c)
              (list_ascii_of_string pathname).

Definition matchRouteBranch {E} (branch : RouteBranch E) (pathname : string)
  : bool :=
  let meta := routesMeta branch in
  matchPath (relativePath meta) (caseSensitive meta) pathname.

(** *** Percent-decoding of the pathname *)

Definition percent : ascii := "%"%char.

(** The value of a hexadecimal digit, in either case. *)
Definition hexValue (c : ascii) : option nat :=
  let n := nat_of_ascii c in
  if between 48 57 n then Some (n - 48)
  else if between 65 70 n then Some (n - 55)
  else if between 97 102 n then Some (n - 87)
  else None.

(** The bytes that may follow the first byte of a UTF-8 sequence of two,
    three or four bytes: one range per byte to come.  A byte that cannot
    begin such a sequence has none. *)
Definition leadRanges (b : nat) : option (list (nat * nat)) :=
  if between 194 223 b then Some [(128, 191)]
  else if Nat.eqb b 224 then Some [(160, 191); (128, 191)]
  else if between 225 236 b then Some [(128, 191); (128, 191)]
  else if Nat.eqb b 237 then Some [(128, 159); (128, 191)]
  else if between 238 239 b then Some [(128, 191); (128, 191)]
  else if Nat.eqb b 240 then Some [(144, 191); (128, 191); (128, 191)]
  else if between 241 243 b then Some [(128, 191); (128, 191); (128, 191)]
  else if Nat.eqb b 244 then Some [(128, 143); (128, 191); (128, 191)]
  else None.

(** Where the decoder stands inside an escape. *)
Inductive escape : Type :=
| Plain
| Percent
| Hex1 (high : nat).

(** [decodeURIComponent], one character at a time.  [pending] holds the
    ranges of the bytes still owed to a UTF-8 sequence that has begun; they
    must come as escapes.  [None] stands for the URIError: an escape cut
    short or not hexadecimal, or escaped bytes that are not UTF-8. *)
Fixpoint decodeFrom (st : escape) (pending : list (nat * nat)) (s : string)
  : option string :=
  match s with
  | EmptyString =>
      match st, pending with
      | Plain, [] => Some EmptyString
      | _, _ => None
      end
  | String c s' =>
      match st with
      | Plain =>
          if Ascii.eqb c percent then decodeFrom Percent pending s'
          else match pending with
               | [] => option_map (String c) (decodeFrom Plain [] s')
               | _ :: _ => None
               end
      | Percent =>
          match hexValue c with
          | Some h => decodeFrom (Hex1 h) pending s'
          | None => None
          end
      | Hex1 h =>
          match hexValue c with
          | Some l =>
              let b := 16 * h + l in
              match pending with
              | [] =>
                  if Nat.ltb b 128
                  then option_map (String (ascii_of_nat b))
                         (decodeFrom Plain [] s')
                  else match leadRanges b with
                       | Some ranges =>
                           option_map (String (ascii_of_nat b))
                             (decodeFrom Plain ranges s')
                       | None => None
                       end
              | (lo, hi) :: ranges =>
                  if between lo hi b
                  then option_map (String (ascii_of_nat b))
                         (decodeFrom Plain ranges s')
                  else None
              end
          | None => None
          end
      end
  end.

Definition decodeURIComponent (s : string) : option string :=
  decodeFrom Plain [] s.

(** Every slash of a decoded segment written back as its escape. *)
Fixpoint escapeSlashes (s : string) : string :=
  match s with
  | EmptyString => EmptyString
  | String c s' =>
      if Ascii.eqb c slash then ("%2F" ++ escapeSlashes s')%string
      else String c (escapeSlashes s')
  end.

Definition decodeSegment (v : string) : option string :=
  option_map escapeSlashes (decodeURIComponent v).

(** The segments decoded in turn; one that fails makes the whole fail. *)
Fixpoint decodeSegments (vs : list string) : option (list string) :=
  match vs with
  | [] => Some []
  | v :: vs' =>
      match decodeSegment v, decodeSegments vs' with
      | Some d, Some ds => Some (d :: ds)
      | _, _ => None
      end
  end.

(** [decodePath(value)]: the pathname split at its slashes, each segment
    decoded, the segments joined again; the pathname itself when a segment
    cannot be decoded. *)
Definition decodePath (value : string) : string :=
  match decodeSegments (split value) with
  | Some ds => String.concat "/" ds
  | None => value
  end.

(** The pathname the branches are tried on: [location.pathname || "/"],
    decoded. *)
Definition locationPathname (pathname : string) : string :=
  decodePath (if pathname =? "" then "/" else pathname).

(** [matchRoutes(routes, location)] with the default basename: the route of
    the first ranked branch that matches the decoded pathname. *)
Definition matchRoutes {E} (routes : list (RouteObject E)) (pathname : string)
  : option (RouteObject E) :=
  let decoded := locationPathname pathname in
  option_map (fun b => route (routesMeta b))
    (find (fun b => matchRouteBranch b decoded)
          (rankRouteBranches (flattenRoutes routes))).



End Router.

(* ------------------------------------------------------------------ *)
(** ** The application: views, elements and the route table *)

Module App.
Import Js Gate Router.

(** The lazily loaded page components of lines 7-19. *)
Inductive view : Type :=
| Login | Register | Dashboard | YouthProfiles | YouthDetail | FosterParents
| Reports | UserManagement | MedicationLog | ThemeSettings | AgencySettings
| NotFound | Unauthorized.

(** The elements the table mounts: a page, a bare [<Navigate>], or a page
    wrapped in [<ProtectedRoute allowedRoles=...>]. *)
Inductive jsx : Type :=
| Page (v : view)
| NavigateTo (to : string)
| Protected (allowedRoles : list string) (children : jsx).

(** The [<Route>] children of [<Routes>], lines 93-174, in declaration order. *)
Definition routes : list (RouteObject jsx) :=
  [ mkRoute "/login" (Page Login);
    mkRoute "/register" (Page Register);
    mkRoute "/" (Protected ["admin"; "worker"; "foster_parent"] (Page Dashboard));
    mkRoute "" (NavigateTo "/login");
    mkRoute "/user-management" (Protected ["admin"] (Page UserManagement));
    mkRoute "/reports" (Protected ["admin"; "worker"] (Page Reports));
    mkRoute "/reports-overview" (Protected ["admin"; "worker"] (Page Reports));
    mkRoute "/youth-profiles" (Protected ["admin"; "worker"] (Page YouthProfiles));
    mkRoute "/youth-profiles/:id"
            (Protected ["admin"; "worker"; "foster_parent"] (Page YouthDetail));
    mkRoute "/foster-parents" (Protected ["admin"; "worker"] (Page FosterParents));
    mkRoute "/my-youth" (Protected ["foster_parent"] (Page YouthProfiles));
    mkRoute "/medication-logs/:youthId"
            (Protected ["admin"; "worker"; "foster_parent"] (Page MedicationLog));
    mkRoute "/theme-settings"
            (Protected ["admin"; "worker"; "foster_parent"] (Page ThemeSettings));
    mkRoute "/agency-settings" (Protected ["admin"] (Page AgencySettings));
    mkRoute "/unauthorized" (Page Unauthorized);
    mkRoute "*" (Page NotFound) ].

(** What ends up on screen for one element. *)
Inductive Screen : Type :=
| Spinner
| RedirectTo (to : string)
| Shows (v : view).

(** Rendering an element under an authentication context.  The children of
    a gate are handed over unrendered and rendered only if the gate returns
    them. *)
Fixpoint render (auth : AuthContext) (e : jsx) : Console.M Screen :=
  match e with
  | Page v => Console.ret (Shows v)
  | NavigateTo to => Console.ret (RedirectTo to)
  | Protected allowedRoles children =>
      o <- ProtectedRoute (render auth children) allowedRoles auth ;;
      match o with
      | Placeholder => Console.ret Spinner
      | Navigate to => Console.ret (RedirectTo to)
      | Fragment k => k
      end
  end.

(** [AppRouter] at a location: the matched element rendered, or nothing
    when no route matches. *)
Definition AppRouter (pathname : string) (auth : AuthContext)
  : Console.M (option Screen) :=
  match matchRoutes routes pathname with
  | Some r => s <- render auth (element r) ;; Console.ret (Some s)
  | None => Console.ret None
  end.

(** What [AppRouter] shows, the console left aside. *)
Definition screen (pathname : string) (auth : AuthContext) : option Screen :=
  Console.result (AppRouter pathname auth).

End App.

(* ------------------------------------------------------------------ *)
(** ** Signals and role variants used in the statements *)

Module Scenario.
Import Js Gate Router.

(** The signals of the specification's scenarios. *)
Definition resolving : AuthContext := mkAuth VNull VNull true.
Definition anonymous : AuthContext := mkAuth VNull VNull false.
Definition worker : AuthContext := mkAuth (VStr "u1") (VStr "worker") false.
Definition fosterParent : AuthContext :=
  mkAuth (VStr "u1") (VStr "foster_parent") false.
Definition noRole : AuthContext := mkAuth (VStr "u1") (VStr EmptyString) false.

(** Blank characters: space, tab, line feed, carriage return. *)
Definition blank (c : ascii) : bool :=
  let n := nat_of_ascii c in
  Nat.eqb n 32 || Nat.eqb n 9 || Nat.eqb n 10 || Nat.eqb n 13.

(** A role tag with its blanks removed and its letters in lower case. *)
Fixpoint normalize (s : string) : string :=
  match s with
  | EmptyString => EmptyString
  | String c s' =>
      if blank c then normalize s' else String (lower c) (normalize s')
  end.

(** [s] differs from [r], but only in case or blanks. *)
Definition variantOf (r s : string) : Prop :=
  s <> r /\ normalize s = normalize r.

End Scenario.

(* ------------------------------------------------------------------ *)
(** ** Navigation around the table *)

Module Navigation.
Import Js Gate Router App.

(** A pathname with its ASCII letters in lower case. *)
Fixpoint lowerString (s : string) : string :=
  match s with
  | EmptyString => EmptyString
  | String c s' => String (lower c) (lowerString s')
  end.

(** One segment of a pathname, as the value of a parameter: not empty, no
    slash in it. *)
Definition isSegment (s : string) : bool :=
  negb (s =? EmptyString)
  && forallb (fun c => negb (Ascii.eqb c slash)) (list_ascii_of_string s).

(** The permitted roles of a gate placed inside another gate: the roles of
    the outer list that the inner list holds too. *)
Definition meet (outer inner : list string) : list string :=
  filter (fun r => existsb (String.eqb r) inner) outer.



(** The views the table mounts without a gate around them. *)
Definition openViews : list view := [Login; Register; Unauthorized; NotFound].

End Navigation.

(* ------------------------------------------------------------------ *)
(** ** The access gate: what it returns *)

Module GateFacts.
Import Js Gate Scenario App.

Section Decision.
Context {A : Type}.
Variable children : A.
Variable allowedRoles : list string.

(** The gate's outcome read off its three tests, in the order of the source. *)
Lemma gate_unfold (auth : AuthContext) :
  gate children allowedRoles auth =
  if loading auth then Placeholder
  else if negb (truthy (currentUser auth)) then Navigate "/login"
  else if truthy (userRole auth) && includes allowedRoles (userRole auth)
       then Fragment children
       else Navigate "/unauthorized".
Proof.
  unfold gate, Console.result, ProtectedRoute.
  destruct (loading auth); [reflexivity|].
  destruct (truthy (currentUser auth)); cbn [negb]; [|reflexivity].
  destruct (truthy (userRole auth) && includes allowedRoles (userRole auth));
    reflexivity.
Qed.

(** What a run of the gate does to the console: some lines are added at the
    end, nothing is removed. *)
Lemma run_appends (auth : AuthContext) (out : list string) :
  Console.run (ProtectedRoute children allowedRoles auth) out =
  (gate children allowedRoles auth,
   out ++ Console.printed (ProtectedRoute children allowedRoles auth)).
Proof.
  unfold gate, Console.result, Console.printed, Console.run, ProtectedRoute.
  destruct (loading auth); cbn.
  - now rewrite app_nil_r.
  - destruct (truthy (currentUser auth)); cbn; [|reflexivity].
    destruct (truthy (userRole auth) && includes allowedRoles (userRole auth));
      reflexivity.
Qed.

(** [includes] is membership by equality of strings. *)
Lemma includes_member (v : value) :
  includes allowedRoles v = true <-> member v allowedRoles.
Proof.
  unfold includes, member. rewrite existsb_exists. split.
  - intros [r [Hin Heq]]. destruct v; cbn in Heq; try discriminate.
    apply String.eqb_eq in Heq. subst. eauto.
  - intros [r [Hin ->]]. exists r. split; [assumption|].
    cbn. apply String.eqb_refl.
Qed.

Lemma includes_In (s : string) :
  includes allowedRoles (VStr s) = true <-> In s allowedRoles.
Proof.
  rewrite includes_member. unfold member. split.
  - intros [r [Hin Heq]]. now injection Heq as ->.
  - intros Hin. eauto.
Qed.

End Decision.

(** The absent values are [null], [undefined] and the empty string. *)
Lemma absent_iff (v : value) :
  absent v <-> v = VNull \/ v = VUndefined \/ v = VStr EmptyString.
Proof.
  unfold absent. split.
  - destruct v as [| |s|]; cbn; auto; try discriminate.
    destruct s; cbn; [auto|discriminate].
  - intros [->|[->| ->]]; reflexivity.
Qed.

Lemma present_VStr (s : string) : present (VStr s) <-> s <> EmptyString.
Proof.
  unfold present. destruct s; cbn; split; intros H;
    congruence || reflexivity || discriminate.
Qed.

End GateFacts.

(* ------------------------------------------------------------------ *)
(** ** The access gate against its specification *)

Module GateSpec.
Import Js Gate Scenario App GateFacts.

(** C1, as stated, fails: with the empty string among the permitted roles and
    an empty [userRole], the role is a member of the list, the signal is
    resolved and authenticated, and the gate still does not render the child:
    it redirects to [/unauthorized]. *)
Lemma access_iff_member_fails :
  loading noRole = false
  /\ present (currentUser noRole)
  /\ member (userRole noRole) [EmptyString]
  /\ gate (Page Dashboard) [EmptyString] noRole = Navigate "/unauthorized"
  /\ ~ (gate (Page Dashboard) [EmptyString] noRole = Fragment (Page Dashboard)
        <-> member (userRole noRole) [EmptyString]).
Proof.
  assert (Hm : member (userRole noRole) [EmptyString]).
  { exists EmptyString. split; [left|]; reflexivity. }
  repeat split; try reflexivity; try assumption.
  intros [_ H]. specialize (H Hm). discriminate H.
Qed.

(** C1 (amended): for every list of permitted roles and every signal with
    [loading] false and [currentUser] present, the gate renders the wrapped
    child if and only if [userRole] is present (a non-empty string) and a
    member of the list; in every other such case it redirects to
    [/unauthorized]. *)
Theorem access_iff_present_member
  (A : Type) (children : A) (R : list string) (auth : AuthContext) :
  loading auth = false ->
  present (currentUser auth) ->
  (gate children R auth = Fragment children
   <-> present (userRole auth) /\ member (userRole auth) R)
  /\ (~ (present (userRole auth) /\ member (userRole auth) R) ->
      gate children R auth = Navigate "/unauthorized").
Proof.
  intros Hl Hu. unfold present in *.
  rewrite gate_unfold, Hl, Hu. cbn [negb].
  rewrite <- includes_member.
  destruct (truthy (userRole auth)), (includes R (userRole auth)); cbn;
    split; try split; intros; try reflexivity; try discriminate;
    try tauto; try (destruct H; discriminate).
Qed.

(** The scenario of the specification: a worker requesting a route that
    permits admin and worker is shown the page. *)
Lemma access_iff_present_member_witness :
  loading worker = false
  /\ present (currentUser worker)
  /\ (gate (Page YouthProfiles) ["admin"; "worker"] worker
      = Fragment (Page YouthProfiles)
      <-> present (userRole worker)
          /\ member (userRole worker) ["admin"; "worker"]).
Proof.
  refine (conj eq_refl (conj eq_refl _)).
  exact (proj1 (access_iff_present_member jsx (Page YouthProfiles)
                  ["admin"; "worker"] worker eq_refl eq_refl)).
Defined.

(** C2: while [loading] is true the gate returns the loading placeholder,
    whatever [currentUser], [userRole] and the permitted roles are: it returns
    neither the child nor a redirect, and prints nothing. *)
Theorem loading_gives_placeholder
  (A : Type) (children : A) (R : list string) (user role : value)
  (out : list string) :
  Console.run (ProtectedRoute children R (mkAuth user role true)) out
  = (Placeholder, out)
  /\ gate children R (mkAuth user role true) <> Fragment children
  /\ gate children R (mkAuth user role true) <> Navigate "/login"
  /\ gate children R (mkAuth user role true) <> Navigate "/unauthorized".
Proof.
  repeat split; cbn; discriminate.
Qed.

(** C3: with [loading] false and [currentUser] absent the gate redirects to
    [/login], whatever [userRole] and the permitted roles are. *)
Theorem absent_user_goes_to_login
  (A : Type) (children : A) (R : list string) (user role : value) :
  absent user ->
  gate children R (mkAuth user role false) = Navigate "/login".
Proof.
  intros Hu. rewrite gate_unfold. cbn [loading currentUser].
  unfold absent in Hu. now rewrite Hu.
Qed.

(** The scenario of the specification: no session, requesting [/reports]. *)
Lemma absent_user_goes_to_login_witness :
  absent VNull
  /\ gate (Page Reports) ["admin"; "worker"] (mkAuth VNull VNull false)
     = Navigate "/login".
Proof.
  exact (conj eq_refl
           (absent_user_goes_to_login jsx (Page Reports) ["admin"; "worker"]
              VNull VNull eq_refl)).
Defined.

(** C4: with [loading] false, [currentUser] present and [userRole] present
    but not a member of the permitted roles, the gate redirects to
    [/unauthorized]. *)
Theorem wrong_role_goes_to_unauthorized
  (A : Type) (children : A) (R : list string) (auth : AuthContext) :
  loading auth = false ->
  present (currentUser auth) ->
  present (userRole auth) ->
  ~ member (userRole auth) R ->
  gate children R auth = Navigate "/unauthorized".
Proof.
  intros Hl Hu Hr Hn. unfold present in *.
  rewrite gate_unfold, Hl, Hu, Hr. cbn [negb andb].
  destruct (includes R (userRole auth)) eqn:Hi; [|reflexivity].
  apply includes_member in Hi. contradiction.
Qed.

Lemma fosterParent_not_permitted :
  ~ member (userRole fosterParent) ["admin"; "worker"].
Proof.
  intros [r [[<-|[<-|[]]] H]]; discriminate H.
Defined.

(** The scenario of the specification: a foster parent requesting a route
    that permits only admin and worker. *)
Lemma wrong_role_goes_to_unauthorized_witness :
  loading fosterParent = false
  /\ present (currentUser fosterParent)
  /\ present (userRole fosterParent)
  /\ gate (Page Reports) ["admin"; "worker"] fosterParent
     = Navigate "/unauthorized".
Proof.
  refine (conj eq_refl (conj eq_refl (conj eq_refl _))).
  exact (wrong_role_goes_to_unauthorized jsx (Page Reports)
           ["admin"; "worker"] fosterParent eq_refl eq_refl eq_refl
           fosterParent_not_permitted).
Defined.

(** Whatever the signal, the outcome is the placeholder, one of the two
    redirects or the children handed in, and a run adds at most one line at
    the end of the console and leaves the lines before it alone. *)
Lemma gate_outcomes
  (A : Type) (children : A) (R : list string) (auth : AuthContext)
  (out : list string) :
  (gate children R auth = Placeholder
   \/ gate children R auth = Navigate "/login"
   \/ gate children R auth = Navigate "/unauthorized"
   \/ gate children R auth = Fragment children)
  /\ exists lines,
       Console.run (ProtectedRoute children R auth) out
       = (gate children R auth, out ++ lines)
       /\ List.length lines <= 1.
Proof.
  split.
  - rewrite gate_unfold.
    destruct (loading auth), (truthy (currentUser auth)),
      (truthy (userRole auth) && includes R (userRole auth)); cbn; auto.
  - exists (Console.printed (ProtectedRoute children R auth)).
    split; [apply run_appends|].
    unfold Console.printed, ProtectedRoute.
    destruct (loading auth), (truthy (currentUser auth)),
      (truthy (userRole auth) && includes R (userRole auth)); cbn; lia.
Qed.

(** C9: with [loading] false, [currentUser] present and [userRole] absent
    ([null], [undefined] or the empty string), the gate redirects to
    [/unauthorized] and does not render the child, whatever the permitted
    roles are, a list holding the empty string included. *)
Theorem absent_role_goes_to_unauthorized
  (A : Type) (children : A) (R : list string) (user role : value) :
  present user ->
  role = VNull \/ role = VUndefined \/ role = VStr EmptyString ->
  gate children R (mkAuth user role false) = Navigate "/unauthorized"
  /\ gate children R (mkAuth user role false) <> Fragment children.
Proof.
  intros Hu Hr. apply absent_iff in Hr. unfold present, absent in *.
  rewrite gate_unfold. cbn [loading currentUser userRole].
  rewrite Hu, Hr. cbn. split; [reflexivity|discriminate].
Qed.

(** The empty role against a list that holds the empty string. *)
Lemma absent_role_goes_to_unauthorized_witness :
  present (VStr "u1")
  /\ In EmptyString [EmptyString; "admin"]
  /\ gate (Page Dashboard) [EmptyString; "admin"]
       (mkAuth (VStr "u1") (VStr EmptyString) false)
     = Navigate "/unauthorized".
Proof.
  refine (conj eq_refl (conj (or_introl eq_refl) _)).
  exact (proj1 (absent_role_goes_to_unauthorized jsx (Page Dashboard)
                  [EmptyString; "admin"] (VStr "u1") (VStr EmptyString)
                  eq_refl (or_intror (or_intror eq_refl)))).
Defined.

(** C10, as stated, fails: with both [admin] and [Admin] permitted, the
    role [Admin] differs from the permitted role [admin] only in case, and
    it is granted access, not sent to [/unauthorized]: it is itself in the
    list. *)
Lemma listed_variant_is_granted :
  loading (mkAuth (VStr "u1") (VStr "Admin") false) = false
  /\ present (VStr "u1")
  /\ In "admin" ["admin"; "Admin"]
  /\ variantOf "admin" "Admin"
  /\ gate (Page UserManagement) ["admin"; "Admin"]
       (mkAuth (VStr "u1") (VStr "Admin") false)
     = Fragment (Page UserManagement)
  /\ gate (Page UserManagement) ["admin"; "Admin"]
       (mkAuth (VStr "u1") (VStr "Admin") false)
     <> Navigate "/unauthorized".
Proof.
  repeat split; try reflexivity; try discriminate. now left.
Qed.

(** C10 (amended): membership is equality of strings, letter for letter.
    For a resolved, authenticated signal whose role is the string [s], the
    child is rendered exactly when [s] is non-empty and is itself one of the
    permitted roles; a role that is not itself in the list goes to
    [/unauthorized], however close to a permitted role it is in case or in
    blanks. *)
Theorem role_match_is_exact
  (A : Type) (children : A) (R : list string) (user : value) (s : string) :
  present user ->
  (gate children R (mkAuth user (VStr s) false) = Fragment children
   <-> s <> EmptyString /\ In s R)
  /\ (~ In s R ->
      gate children R (mkAuth user (VStr s) false) = Navigate "/unauthorized").
Proof.
  intros Hu. unfold present in Hu.
  rewrite gate_unfold. cbn [loading currentUser userRole]. rewrite Hu.
  cbn [negb].
  assert (Hin := includes_In R s).
  assert (Hp := present_VStr s). unfold present in Hp.
  destruct (truthy (VStr s)) eqn:Ht, (includes R (VStr s)) eqn:Hi; cbn [andb].
  - assert (In s R) by now apply Hin.
    repeat split; try tauto; now apply Hp.
  - assert (~ In s R) by (intros H; apply Hin in H; discriminate H).
    repeat split; try tauto; try discriminate; reflexivity.
  - assert (s = EmptyString).
    { destruct s; [reflexivity|discriminate Ht]. }
    repeat split; try tauto; try discriminate; reflexivity.
  - assert (~ In s R) by (intros H; apply Hin in H; discriminate H).
    repeat split; try tauto; try discriminate; reflexivity.
Qed.

Lemma Admin_not_admin : ~ In "Admin" ["admin"].
Proof.
  intros [H|[]]; discriminate H.
Defined.

(** ["Admin"] where only ["admin"] is permitted. *)
Lemma role_match_is_exact_witness :
  present (VStr "u1")
  /\ variantOf "admin" "Admin"
  /\ ~ In "Admin" ["admin"]
  /\ gate (Page UserManagement) ["admin"]
       (mkAuth (VStr "u1") (VStr "Admin") false)
     = Navigate "/unauthorized".
Proof.
  refine (conj eq_refl (conj _ (conj Admin_not_admin _))).
  - split; [discriminate|reflexivity].
  - exact (proj2 (role_match_is_exact jsx (Page UserManagement)
                    ["admin"] (VStr "u1") "Admin" eq_refl)
             Admin_not_admin).
Defined.

(** A trailing blank is enough to miss the permitted role. *)
Example trailing_blank_is_refused :
  variantOf "admin" "admin "
  /\ gate (Page UserManagement) ["admin"]
       (mkAuth (VStr "u1") (VStr "admin ") false)
     = Navigate "/unauthorized".
Proof.
  split; [split; [discriminate|reflexivity]|reflexivity].
Qed.

End GateSpec.

(* ------------------------------------------------------------------ *)
(** ** Route selection on the table of the application *)

Module RouterFacts.
Import Js Gate Router App Scenario.

(** Replaces the ranking of the table by its value. *)
Ltac rank_table :=
  let l := eval vm_compute in (rankRouteBranches (flattenRoutes routes)) in
  change (rankRouteBranches (flattenRoutes routes)) with l.

(** Unfolds the selection down to the chain of [matchPath] tests. *)
Ltac selection_chain :=
  unfold matchRoutes; rank_table; cbn [find];
  unfold matchRouteBranch; cbn [routesMeta relativePath caseSensitive].

Section Ranking.
Context {E : Type}.
Implicit Types a b : RouteBranch E.
Implicit Types l : list (RouteBranch E).

Lemma compareBranches_total a b :
  (0 < compareBranches a b)%Z -> goesFirst b a.
Proof.
  unfold goesFirst, compareBranches.
  rewrite (Z.eqb_sym (score b) (score a)).
  destruct (score a =? score b)%Z eqn:Hs; cbn [negb]; lia.
Qed.

Lemma insertBranch_perm a l : Permutation (a :: l) (insertBranch a l).
Proof.
  induction l as [|b l IH]; cbn [insertBranch]; [reflexivity|].
  destruct (compareBranches a b <=? 0)%Z; [reflexivity|].
  rewrite perm_swap. now apply perm_skip.
Qed.

Lemma insertBranch_HdRel a b l :
  goesFirst b a -> HdRel goesFirst b l -> HdRel goesFirst b (insertBranch a l).
Proof.
  intros Hba Hl. destruct l as [|c l]; cbn [insertBranch].
  - now constructor.
  - destruct (compareBranches a c <=? 0)%Z; constructor;
      [assumption | now apply HdRel_inv in Hl].
Qed.

Lemma insertBranch_sorted a l :
  Sorted goesFirst l -> Sorted goesFirst (insertBranch a l).
Proof.
  induction 1 as [|b l Hs IH Hhd]; cbn [insertBranch].
  - repeat constructor.
  - destruct (compareBranches a b <=? 0)%Z eqn:Hc.
    + apply Z.leb_le in Hc. repeat constructor; assumption.
    + apply Z.leb_gt in Hc. constructor; [exact IH|].
      apply insertBranch_HdRel; [|assumption].
      now apply compareBranches_total.
Qed.

(** The ranking is a sort: it keeps the branches and orders them by the
    comparison function. *)
Lemma rank_permutation l : Permutation l (rankRouteBranches l).
Proof.
  induction l as [|a l IH]; cbn; [reflexivity|].
  rewrite <- insertBranch_perm. now apply perm_skip.
Qed.

Lemma rank_sorted l : Sorted goesFirst (rankRouteBranches l).
Proof.
  induction l as [|a l IH]; cbn; [constructor|].
  now apply insertBranch_sorted.
Qed.

End Ranking.

(** The patterns [/] and the empty pattern compile to the same expression. *)
Lemma empty_pattern_is_root (p : string) :
  matchPath EmptyString false p = matchPath "/" false p.
Proof. reflexivity. Qed.



Lemma split_nonempty (s : string) : split s <> [].
Proof.
  destruct s as [|c s]; cbn [split]; [discriminate|].
  destruct (split s); [discriminate|].
  destruct (Ascii.eqb c slash); discriminate.
Qed.



(** The entry of the empty path is shadowed: its branch has the pattern and
    the score of the root entry, which is declared before it, so no pathname
    selects it. *)
Lemma empty_route_never_selected (p : string) :
  matchRoutes routes p <> Some (mkRoute EmptyString (NavigateTo "/login")).
Proof.
  selection_chain.
  set (q := locationPathname p). clearbody q.
  rewrite (empty_pattern_is_root q).
  repeat match goal with
         | |- context [if matchPath ?r false q then _ else _] =>
             destruct (matchPath r false q)
         end; cbn; discriminate.
Qed.



End RouterFacts.

(* ------------------------------------------------------------------ *)
(** ** The route table against its specification *)

Module RouteSpec.
Import Js Gate Router App Scenario RouterFacts.

(** The scenarios of the specification, run through the whole router. *)
Example scenario_resolving :
  screen "/reports" resolving = Some Spinner.
Proof. vm_compute. reflexivity. Qed.

Example scenario_anonymous :
  screen "/reports" anonymous = Some (RedirectTo "/login").
Proof. vm_compute. reflexivity. Qed.

Example scenario_foster_parent :
  Console.run (AppRouter "/reports" fosterParent) []
  = (Some (RedirectTo "/unauthorized"),
     ["User role foster_parent not in allowed roles: admin, worker"]).
Proof. vm_compute. reflexivity. Qed.

Example scenario_worker :
  Console.run (AppRouter "/youth-profiles" worker) []
  = (Some (Shows YouthProfiles),
     ["User has required role: worker, allowing access"]).
Proof. vm_compute. reflexivity. Qed.

(** Patterns are matched without regard to case and to trailing slashes, and
    a parameter takes exactly one non-empty segment. *)
Example matching_is_loose :
  option_map path (matchRoutes routes "/REPORTS/") = Some "/reports"
  /\ option_map path (matchRoutes routes "/youth-profiles/12")
     = Some "/youth-profiles/:id"
  /\ option_map path (matchRoutes routes "/youth-profiles/1/2") = Some "*".
Proof. vm_compute. repeat split. Qed.

(** C6: the table holds the root entry (the role-gated Dashboard) and, after
    it, a distinct entry for the empty path (a bare redirect to [/login]).
    A request to the empty path, which the router reads as [/], selects the
    root entry: a worker is shown the Dashboard and a resolving signal gets
    the placeholder, where the empty-path entry would have redirected.  No
    pathname selects the empty-path entry. *)
Theorem empty_path_reaches_dashboard_gate :
  nth_error routes 2
  = Some (mkRoute "/" (Protected ["admin"; "worker"; "foster_parent"]
                         (Page Dashboard)))
  /\ nth_error routes 3 = Some (mkRoute EmptyString (NavigateTo "/login"))
  /\ matchRoutes routes EmptyString
     = Some (mkRoute "/" (Protected ["admin"; "worker"; "foster_parent"]
                            (Page Dashboard)))
  /\ matchRoutes routes "/" = matchRoutes routes EmptyString
  /\ screen EmptyString worker = Some (Shows Dashboard)
  /\ screen EmptyString resolving = Some Spinner
  /\ render worker (NavigateTo "/login") [] = (RedirectTo "/login", [])
  /\ (forall p, matchRoutes routes p
                <> Some (mkRoute EmptyString (NavigateTo "/login"))).
Proof.
  repeat (split; [vm_compute; reflexivity|]).
  exact empty_route_never_selected.
Qed.




(** An escaped letter is the letter: [/%72eports] is [/reports]. *)
Example escaped_letter_is_decoded :
  decodePath "/%72eports" = "/reports"
  /\ matchRoutes routes "/%72eports"
     = Some (mkRoute "/reports" (Protected ["admin"; "worker"] (Page Reports)))
  /\ decodePath "/a%2Fb/%C3%A9" = String.concat "/" [EmptyString; "a%2Fb";
       String (ascii_of_nat 195) (String (ascii_of_nat 169) EmptyString)]
  /\ decodePath "/%E0%80%80" = "/%E0%80%80"
  /\ decodePath "/100%" = "/100%".
Proof. vm_compute. repeat split. Qed.

(** C8: [/reports] and [/reports-overview] are two entries with the same
    element, the Reports page behind a gate that permits admin and worker;
    under every authentication context the router does the same for both,
    and what it shows is the placeholder, a redirect or the Reports page. *)
Theorem reports_paths_agree (auth : AuthContext) :
  matchRoutes routes "/reports"
  = Some (mkRoute "/reports" (Protected ["admin"; "worker"] (Page Reports)))
  /\ matchRoutes routes "/reports-overview"
     = Some (mkRoute "/reports-overview"
               (Protected ["admin"; "worker"] (Page Reports)))
  /\ AppRouter "/reports" auth = AppRouter "/reports-overview" auth
  /\ (screen "/reports" auth = Some Spinner
      \/ screen "/reports" auth = Some (RedirectTo "/login")
      \/ screen "/reports" auth = Some (RedirectTo "/unauthorized")
      \/ screen "/reports" auth = Some (Shows Reports)).
Proof.
  assert (H1 : matchRoutes routes "/reports"
               = Some (mkRoute "/reports"
                         (Protected ["admin"; "worker"] (Page Reports))))
    by (vm_compute; reflexivity).
  assert (H2 : matchRoutes routes "/reports-overview"
               = Some (mkRoute "/reports-overview"
                         (Protected ["admin"; "worker"] (Page Reports))))
    by (vm_compute; reflexivity).
  split; [exact H1|]. split; [exact H2|]. split.
  - unfold AppRouter. rewrite H1, H2. reflexivity.
  - unfold screen, AppRouter, Console.result. rewrite H1.
    cbn [element render]. unfold Console.bind, ProtectedRoute.
    destruct (loading auth); [now left|].
    destruct (truthy (currentUser auth)); cbn [negb]; [|now right; left].
    destruct (truthy (userRole auth)
              && includes ["admin"; "worker"] (userRole auth)).
    + now right; right; right.
    + now right; right; left.
Qed.

End RouteSpec.

(* ------------------------------------------------------------------ *)
(** ** The access gate: further properties of [ProtectedRoute] *)

Module GateMore.
Import Js Gate Scenario App Navigation GateFacts.

(** The role test of line 76 as a proposition. *)
Lemma role_test_iff (R : list string) (v : value) :
  truthy v && includes R v = true <-> present v /\ member v R.
Proof.
  rewrite andb_true_iff, includes_member. reflexivity.
Qed.

(** The gate renders its children exactly when all three tests pass. *)
Lemma gate_grants_iff {A} (children : A) (R : list string) (auth : AuthContext) :
  gate children R auth = Fragment children
  <-> loading auth = false /\ present (currentUser auth)
      /\ present (userRole auth) /\ member (userRole auth) R.
Proof.
  rewrite gate_unfold, <- role_test_iff. unfold present.
  destruct (loading auth), (truthy (currentUser auth)),
    (truthy (userRole auth) && includes R (userRole auth)); cbn;
    split; try discriminate; try tauto;
    intros H; decompose [and] H; discriminate.
Qed.

(** X1: widening the list of permitted roles never takes access away: a
    signal that is shown the children under a list is shown them under
    every list that holds all the roles of the first. *)
Theorem wider_roles_keep_access
  (A : Type) (children : A) (R R' : list string) (auth : AuthContext) :
  incl R R' ->
  gate children R auth = Fragment children ->
  gate children R' auth = Fragment children.
Proof.
  intros Hincl. rewrite !gate_grants_iff.
  intros (Hl & Hu & Hr & r & Hin & Hv).
  repeat split; try assumption. exists r. split; [now apply Hincl|exact Hv].
Qed.

Lemma admin_worker_incl :
  incl ["admin"; "worker"] ["admin"; "worker"; "foster_parent"].
Proof.
  intros r [<-|[<-|[]]]; cbn; tauto.
Defined.

(** A worker admitted to the youth list is admitted to the youth detail. *)
Lemma wider_roles_keep_access_witness :
  incl ["admin"; "worker"] ["admin"; "worker"; "foster_parent"]
  /\ gate (Page YouthProfiles) ["admin"; "worker"] worker
     = Fragment (Page YouthProfiles)
  /\ gate (Page YouthProfiles) ["admin"; "worker"; "foster_parent"] worker
     = Fragment (Page YouthProfiles).
Proof.
  refine (conj admin_worker_incl (conj eq_refl _)).
  exact (wider_roles_keep_access jsx (Page YouthProfiles) ["admin"; "worker"]
           ["admin"; "worker"; "foster_parent"] worker admin_worker_incl
           eq_refl).
Defined.

(** X2: only the set of permitted roles matters for the outcome: two lists
    with the same elements, in whatever order and with whatever repetitions,
    give the same outcome for every signal. *)
Theorem outcome_depends_on_role_set
  (A : Type) (children : A) (R R' : list string) (auth : AuthContext) :
  (forall r, In r R <-> In r R') ->
  gate children R auth = gate children R' auth.
Proof.
  intros Hsame. rewrite !gate_unfold.
  replace (includes R' (userRole auth)) with (includes R (userRole auth));
    [reflexivity|].
  apply eq_true_iff_eq. rewrite !includes_member. unfold member.
  split; intros (r & Hin & Hv); exists r; (split; [now apply Hsame|exact Hv]).
Qed.

Lemma reordered_roles :
  forall r, In r ["admin"; "worker"] <-> In r ["worker"; "admin"; "worker"].
Proof.
  intros r. cbn. tauto.
Defined.

Lemma outcome_depends_on_role_set_witness :
  (forall r, In r ["admin"; "worker"] <-> In r ["worker"; "admin"; "worker"])
  /\ gate (Page Reports) ["admin"; "worker"] fosterParent
     = gate (Page Reports) ["worker"; "admin"; "worker"] fosterParent.
Proof.
  refine (conj reordered_roles _).
  exact (outcome_depends_on_role_set jsx (Page Reports) ["admin"; "worker"]
           ["worker"; "admin"; "worker"] fosterParent reordered_roles).
Defined.

(** X3: a gate with an empty list of permitted roles never renders its
    children: every signal gets the placeholder or a redirect. *)
Theorem empty_roles_admit_nobody
  (A : Type) (children : A) (auth : AuthContext) :
  gate children [] auth <> Fragment children
  /\ (gate children [] auth = Placeholder
      \/ gate children [] auth = Navigate "/login"
      \/ gate children [] auth = Navigate "/unauthorized").
Proof.
  rewrite gate_unfold. unfold includes. cbn [existsb].
  rewrite andb_false_r.
  destruct (loading auth), (truthy (currentUser auth)); cbn;
    split; try discriminate; auto.
Qed.

(** Rendering reads nothing from the console: it returns the same screen
    from every buffer and adds its lines at the end. *)
Lemma render_run (auth : AuthContext) (e : jsx) (out : list string) :
  render auth e out
  = (Console.result (render auth e), out ++ Console.printed (render auth e)).
Proof.
  revert out. induction e as [v|to|R c IH]; intros out.
  - cbn. now rewrite app_nil_r.
  - cbn. now rewrite app_nil_r.
  - unfold Console.result, Console.printed. cbn [render].
    unfold Console.bind, ProtectedRoute.
    destruct (loading auth); [cbn; now rewrite app_nil_r|].
    destruct (truthy (currentUser auth)); cbn [negb]; [|reflexivity].
    destruct (truthy (userRole auth) && includes R (userRole auth));
      [|reflexivity].
    unfold Console.bind, Console.log, Console.ret. cbn beta iota. cbn [app].
    rewrite (IH (out ++ _)), (IH [_]). cbn [fst snd].
    now rewrite <- app_assoc.
Qed.

(** What a gate around an element puts on screen. *)
Lemma render_gated (auth : AuthContext) (R : list string) (e : jsx) :
  Console.result (render auth (Protected R e)) =
  match gate tt R auth with
  | Placeholder => Spinner
  | Navigate to => RedirectTo to
  | Fragment _ => Console.result (render auth e)
  end.
Proof.
  rewrite gate_unfold. unfold Console.result at 1. cbn [render].
  unfold Console.bind, ProtectedRoute.
  destruct (loading auth); [reflexivity|].
  destruct (truthy (currentUser auth)); cbn [negb]; [|reflexivity].
  destruct (truthy (userRole auth) && includes R (userRole auth));
    [|reflexivity].
  unfold Console.bind, Console.log, Console.ret. cbn beta iota. cbn [app].
  now rewrite render_run.
Qed.

(** Membership in the roles two nested gates share. *)
Lemma includes_meet (R1 R2 : list string) (v : value) :
  includes (meet R1 R2) v = includes R1 v && includes R2 v.
Proof.
  apply eq_true_iff_eq.
  rewrite andb_true_iff, !includes_member. unfold member, meet.
  split.
  - intros (r & Hin & Hv). apply filter_In in Hin. destruct Hin as [H1 H2].
    apply existsb_exists in H2. destruct H2 as (r' & H2 & Heq).
    apply String.eqb_eq in Heq. subst r'.
    split; exists r; split; assumption.
  - intros [(r & H1 & Hv) (r' & H2 & Hv')]. subst v.
    injection Hv' as <-. exists r. split; [|reflexivity].
    apply filter_In. split; [assumption|].
    apply existsb_exists. exists r. split; [assumption|].
    apply String.eqb_refl.
Qed.

(** X4: gates compose by intersection: a gate placed inside another one puts
    on screen what a single gate does whose permitted roles are those the two
    lists share; in particular a gate repeated inside itself changes nothing
    on screen. *)
Theorem nested_gates_intersect
  (auth : AuthContext) (R1 R2 : list string) (e : jsx) :
  Console.result (render auth (Protected R1 (Protected R2 e)))
  = Console.result (render auth (Protected (meet R1 R2) e))
  /\ Console.result (render auth (Protected R1 (Protected R1 e)))
     = Console.result (render auth (Protected R1 e)).
Proof.
  assert (H : forall Ra Rb,
             Console.result (render auth (Protected Ra (Protected Rb e)))
             = match gate tt Ra auth, gate tt Rb auth with
               | Placeholder, _ => Spinner
               | Navigate to, _ => RedirectTo to
               | Fragment _, Placeholder => Spinner
               | Fragment _, Navigate to => RedirectTo to
               | Fragment _, Fragment _ => Console.result (render auth e)
               end).
  { intros Ra Rb. rewrite render_gated.
    destruct (gate tt Ra auth); try reflexivity. apply render_gated. }
  rewrite !H, !render_gated, !gate_unfold, includes_meet.
  destruct (loading auth), (truthy (currentUser auth)),
    (truthy (userRole auth)), (includes R1 (userRole auth)),
    (includes R2 (userRole auth)); cbn; split; reflexivity.
Qed.

End GateMore.

(* ------------------------------------------------------------------ *)
(** ** Route selection: what holds for every table *)

Module SelectionFacts.
Import Js Gate Router App Navigation RouterFacts.

Section AnyTable.
Context {E : Type}.
Implicit Types rs : list (RouteObject E).
Implicit Types b : RouteBranch E.

(** A branch of the flattened table is an entry of the table, matched on
    its own path, without regard to case. *)
Lemma flattenFrom_In rs i b :
  In b (flattenFrom i rs) ->
  In (route (routesMeta b)) rs
  /\ relativePath (routesMeta b) = path (route (routesMeta b))
  /\ caseSensitive (routesMeta b) = false.
Proof.
  revert i. induction rs as [|r rs IH]; intros i; cbn [flattenFrom].
  - intros [].
  - intros [<-|Hin].
    + cbn. auto.
    + destruct (IH _ Hin) as (H1 & H2 & H3). cbn. auto.
Qed.


Lemma ranked_In rs b :
  In b (rankRouteBranches (flattenRoutes rs)) <-> In b (flattenRoutes rs).
Proof.
  split; apply Permutation_in;
    [apply Permutation_sym|]; apply rank_permutation.
Qed.

Lemma branch_test rs b (p : string) :
  In b (rankRouteBranches (flattenRoutes rs)) ->
  matchRouteBranch b p = matchPath (path (route (routesMeta b))) false p.
Proof.
  intros Hin. apply ranked_In, flattenFrom_In in Hin.
  destruct Hin as (_ & H2 & H3). unfold matchRouteBranch. now rewrite H2, H3.
Qed.

(** The route selected is an entry of the table whose pattern matches. *)
Lemma matchRoutes_sound rs (p : string) r :
  matchRoutes rs p = Some r ->
  In r rs /\ matchPath (path r) false (locationPathname p) = true.
Proof.
  unfold matchRoutes. intros H.
  destruct (find _ _) as [b|] eqn:Hf; [|discriminate H].
  cbn in H. injection H as <-.
  apply find_some in Hf. destruct Hf as [Hin Hm].
  rewrite (branch_test rs b _ Hin) in Hm. split; [|exact Hm].
  now apply ranked_In, flattenFrom_In in Hin.
Qed.


Lemma find_ext_in {X} (f g : X -> bool) (l : list X) :
  (forall x, In x l -> f x = g x) -> find f l = find g l.
Proof.
  induction l as [|x l IH]; intros H; cbn; [reflexivity|].
  rewrite <- (H x (or_introl eq_refl)).
  destruct (f x); [reflexivity|]. apply IH. intros y Hy. apply H. now right.
Qed.

(** Two pathnames that every pattern of the table treats alike select the
    same route. *)
Lemma matchRoutes_ext rs (p q : string) :
  (forall r, In r rs ->
     matchPath (path r) false (locationPathname p)
     = matchPath (path r) false (locationPathname q)) ->
  matchRoutes rs p = matchRoutes rs q.
Proof.
  intros H. unfold matchRoutes. f_equal. apply find_ext_in.
  intros b Hb. rewrite !(branch_test rs b _ Hb). apply H.
  now apply ranked_In, flattenFrom_In in Hb.
Qed.

End AnyTable.

(** *** Unfolding the matcher one token at a time *)

Lemma matchTokens_char ic e c ts x xs :
  matchTokens ic e (TChar c :: ts) (x :: xs)
  = sameChar ic c x && matchTokens ic e ts xs.
Proof. reflexivity. Qed.

Lemma matchTokens_param ic e ts x xs :
  matchTokens ic e (TParam :: ts) (x :: xs)
  = negb (Ascii.eqb x slash)
    && (matchTokens ic e ts xs || matchTokens ic e (TParam :: ts) xs).
Proof. reflexivity. Qed.


Lemma list_ascii_app (s t : string) :
  list_ascii_of_string (s ++ t)
  = (list_ascii_of_string s ++ list_ascii_of_string t)%list.
Proof.
  induction s as [|c s IH]; cbn; [reflexivity|now rewrite IH].
Qed.

(** *** Letter case *)

Lemma lower_idem c : lower (lower c) = lower c.
Proof. destruct c as [[] [] [] [] [] [] [] []]; reflexivity. Qed.

Lemma lower_is_slash c : Ascii.eqb (lower c) slash = Ascii.eqb c slash.
Proof. destruct c as [[] [] [] [] [] [] [] []]; reflexivity. Qed.

Lemma slash_is_lower c : Ascii.eqb slash (lower c) = Ascii.eqb slash c.
Proof. destruct c as [[] [] [] [] [] [] [] []]; reflexivity. Qed.

Lemma lower_lineTerminator c : lineTerminator (lower c) = lineTerminator c.
Proof. destruct c as [[] [] [] [] [] [] [] []]; reflexivity. Qed.

(** Folding moves no byte into or out of the upper half of the codes. *)
Lemma lower_code c n :
  128 <= n ->
  Nat.eqb (nat_of_ascii (lower c)) n = Nat.eqb (nat_of_ascii c) n.
Proof.
  intros Hn.
  assert (H : nat_of_ascii (lower c) = nat_of_ascii c
              \/ (nat_of_ascii (lower c) < 128 /\ nat_of_ascii c < 128)).
  { destruct c as [[] [] [] [] [] [] [] []]; vm_compute; auto;
      right; split; repeat constructor. }
  destruct H as [->|[H1 H2]]; [reflexivity|].
  destruct (Nat.eqb_spec (nat_of_ascii (lower c)) n),
    (Nat.eqb_spec (nat_of_ascii c) n); try reflexivity; lia.
Qed.


Lemma lowerString_chars (s : string) :
  list_ascii_of_string (lowerString s) = map lower (list_ascii_of_string s).
Proof.
  induction s as [|c s IH]; cbn; [reflexivity|now rewrite IH].
Qed.

Lemma lineSeparatorAt_lower inp :
  lineSeparatorAt (map lower inp) = lineSeparatorAt inp.
Proof.
  destruct inp as [|a [|b [|c inp]]]; try reflexivity.
  cbn [map lineSeparatorAt].
  rewrite (lower_code a 226), (lower_code b 128), (lower_code c 168),
    (lower_code c 169) by lia.
  reflexivity.
Qed.

Lemma dotAll_lower inp : dotAll (map lower inp) = dotAll inp.
Proof.
  induction inp as [|c inp IH]; [reflexivity|].
  change (map lower (c :: inp)) with (lower c :: map lower inp).
  cbn [dotAll].
  change (lower c :: map lower inp) with (map lower (c :: inp)).
  now rewrite lineSeparatorAt_lower, lower_lineTerminator, IH.
Qed.

Lemma allSlashes_lower inp :
  forallb (Ascii.eqb slash) (map lower inp) = forallb (Ascii.eqb slash) inp.
Proof.
  induction inp as [|c inp IH]; cbn [map forallb]; [reflexivity|].
  now rewrite slash_is_lower, IH.
Qed.

Lemma matchEnding_lower e inp :
  matchEnding e (map lower inp) = matchEnding e inp.
Proof.
  destruct e; cbn [matchEnding].
  - apply allSlashes_lower.
  - apply dotAll_lower.
  - destruct inp as [|c [|x xs]]; cbn [map].
    + reflexivity.
    + apply (allSlashes_lower [c]).
    + pose proof (allSlashes_lower (c :: x :: xs)) as H1.
      pose proof (dotAll_lower (x :: xs)) as H2.
      cbn [map] in H1, H2. now rewrite H1, H2, lower_is_slash.
Qed.

(** A pattern matched without regard to case does not see the case of the
    input. *)
Lemma matchTokens_lower e ts inp :
  matchTokens true e ts (map lower inp) = matchTokens true e ts inp.
Proof.
  revert inp. induction ts as [|[c|] ts IH]; intros inp.
  - apply matchEnding_lower.
  - destruct inp as [|x xs]; [reflexivity|]. cbn [map].
    rewrite !matchTokens_char, IH. unfold sameChar. now rewrite lower_idem.
  - induction inp as [|x xs IHx]; [reflexivity|]. cbn [map].
    rewrite !matchTokens_param, IH, IHx, lower_is_slash. reflexivity.
Qed.

Lemma matchPath_lower (q p : string) :
  matchPath q false (lowerString p) = matchPath q false p.
Proof.
  unfold matchPath. rewrite lowerString_chars. apply matchTokens_lower.
Qed.

(** *** Letter case and decoding *)

Lemma lowerString_idem (s : string) : lowerString (lowerString s) = lowerString s.
Proof.
  induction s as [|c s IH]; cbn; [reflexivity|]. now rewrite lower_idem, IH.
Qed.

Lemma lowerString_app (s t : string) :
  lowerString (s ++ t) = (lowerString s ++ lowerString t)%string.
Proof.
  induction s as [|c s IH]; cbn; [reflexivity|now rewrite IH].
Qed.

Lemma lower_is_percent c : Ascii.eqb (lower c) percent = Ascii.eqb c percent.
Proof. destruct c as [[] [] [] [] [] [] [] []]; reflexivity. Qed.

Lemma lower_hexValue c : hexValue (lower c) = hexValue c.
Proof. destruct c as [[] [] [] [] [] [] [] []]; reflexivity. Qed.

(** What two characters share when folding makes them equal. *)
Lemma folded_chars (c c' : ascii) :
  lower c = lower c' ->
  Ascii.eqb c slash = Ascii.eqb c' slash
  /\ Ascii.eqb c percent = Ascii.eqb c' percent
  /\ hexValue c = hexValue c'.
Proof.
  intros H.
  rewrite <- (lower_is_slash c), <- (lower_is_slash c').
  rewrite <- (lower_is_percent c), <- (lower_is_percent c').
  rewrite <- (lower_hexValue c), <- (lower_hexValue c').
  now rewrite H.
Qed.

Lemma folded_cons (c c' : ascii) (s s' : string) :
  lowerString (String c s) = lowerString (String c' s') ->
  lower c = lower c' /\ lowerString s = lowerString s'.
Proof.
  cbn. intros H. now injection H.
Qed.

Lemma folded_empty (s : string) :
  lowerString EmptyString = lowerString s -> s = EmptyString.
Proof.
  destruct s; [reflexivity|discriminate].
Qed.

Lemma option_map_String (c c' : ascii) (x y : option string) :
  lower c = lower c' ->
  option_map lowerString x = option_map lowerString y ->
  option_map lowerString (option_map (String c) x)
  = option_map lowerString (option_map (String c') y).
Proof.
  intros Hc H. destruct x, y; cbn in *; try discriminate; [|reflexivity].
  injection H as H. now rewrite Hc, H.
Qed.

(** Decoding does not tell apart two strings that folding makes equal:
    hexadecimal digits count the same in either case, and the characters
    copied are folded alike. *)
Lemma decodeFrom_folded st pending (s t : string) :
  lowerString s = lowerString t ->
  option_map lowerString (decodeFrom st pending s)
  = option_map lowerString (decodeFrom st pending t).
Proof.
  revert t st pending. induction s as [|c s IH]; intros t st pending H.
  - apply folded_empty in H. now subst t.
  - destruct t as [|c' t]; [discriminate H|].
    apply folded_cons in H. destruct H as [Hc Hs].
    destruct (folded_chars c c' Hc) as (_ & Hp & Hh).
    cbn [decodeFrom]. rewrite <- Hp, <- Hh.
    destruct st as [| |h].
    + destruct (Ascii.eqb c percent); [now apply IH|].
      destruct pending; [|reflexivity].
      apply option_map_String; [exact Hc|now apply IH].
    + destruct (hexValue c); [now apply IH|reflexivity].
    + destruct (hexValue c) as [l|]; [|reflexivity].
      cbv zeta.
      destruct pending as [|[lo hi] ranges].
      * destruct (Nat.ltb (16 * h + l) 128).
        -- apply option_map_String; [reflexivity|now apply IH].
        -- destruct (leadRanges (16 * h + l)); [|reflexivity].
           apply option_map_String; [reflexivity|now apply IH].
      * destruct (between lo hi (16 * h + l)); [|reflexivity].
        apply option_map_String; [reflexivity|now apply IH].
Qed.

Lemma escapeSlashes_folded (s t : string) :
  lowerString s = lowerString t ->
  lowerString (escapeSlashes s) = lowerString (escapeSlashes t).
Proof.
  revert t. induction s as [|c s IH]; intros t H.
  - apply folded_empty in H. now subst t.
  - destruct t as [|c' t]; [discriminate H|].
    apply folded_cons in H. destruct H as [Hc Hs].
    destruct (folded_chars c c' Hc) as (Hsl & _ & _).
    cbn [escapeSlashes]. rewrite <- Hsl.
    destruct (Ascii.eqb c slash).
    + rewrite !lowerString_app. now rewrite (IH t Hs).
    + cbn [lowerString]. now rewrite Hc, (IH t Hs).
Qed.

Lemma decodeSegment_folded (s t : string) :
  lowerString s = lowerString t ->
  option_map lowerString (decodeSegment s)
  = option_map lowerString (decodeSegment t).
Proof.
  intros H. unfold decodeSegment, decodeURIComponent.
  pose proof (decodeFrom_folded Plain [] s t H) as Hd.
  destruct (decodeFrom Plain [] s), (decodeFrom Plain [] t);
    cbn in *; try discriminate; [|reflexivity].
  injection Hd as Hd. now rewrite (escapeSlashes_folded _ _ Hd).
Qed.

Lemma decodeSegments_folded (ss ts : list string) :
  map lowerString ss = map lowerString ts ->
  option_map (map lowerString) (decodeSegments ss)
  = option_map (map lowerString) (decodeSegments ts).
Proof.
  revert ts. induction ss as [|s ss IH]; intros ts H.
  - destruct ts; [reflexivity|discriminate H].
  - destruct ts as [|t ts]; [discriminate H|].
    cbn [map] in H. injection H as Hs Hrest.
    cbn [decodeSegments].
    pose proof (decodeSegment_folded s t Hs) as H1.
    pose proof (IH ts Hrest) as H2.
    destruct (decodeSegment s), (decodeSegment t),
      (decodeSegments ss), (decodeSegments ts);
      cbn in *; try discriminate; try reflexivity.
    injection H1 as H1. injection H2 as H2. now rewrite H1, H2.
Qed.

Lemma split_lower (s : string) :
  split (lowerString s) = map lowerString (split s).
Proof.
  induction s as [|c s IH]; [reflexivity|].
  cbn [lowerString split]. rewrite IH, lower_is_slash.
  destruct (split s) as [|seg rest]; [reflexivity|].
  cbn [map]. destruct (Ascii.eqb c slash); reflexivity.
Qed.

Lemma concat_lower (sep : string) (xs : list string) :
  lowerString (String.concat sep xs)
  = String.concat (lowerString sep) (map lowerString xs).
Proof.
  induction xs as [|x [|y xs] IH]; [reflexivity|reflexivity|].
  change (String.concat sep (x :: y :: xs))
    with (x ++ sep ++ String.concat sep (y :: xs))%string.
  rewrite !lowerString_app, IH. reflexivity.
Qed.

Lemma decodePath_folded (p q : string) :
  lowerString p = lowerString q ->
  lowerString (decodePath p) = lowerString (decodePath q).
Proof.
  intros H. unfold decodePath.
  assert (Hs : map lowerString (split p) = map lowerString (split q))
    by now rewrite <- !split_lower, H.
  pose proof (decodeSegments_folded _ _ Hs) as Hd.
  destruct (decodeSegments (split p)), (decodeSegments (split q));
    cbn in Hd; try discriminate; [|exact H].
  injection Hd as Hd. now rewrite !concat_lower, Hd.
Qed.

Lemma locationPathname_folded (p q : string) :
  lowerString p = lowerString q ->
  lowerString (locationPathname p) = lowerString (locationPathname q).
Proof.
  intros H. unfold locationPathname. apply decodePath_folded.
  destruct p, q; try discriminate H; [reflexivity|exact H].
Qed.

(** Two pathnames that folding makes equal select the same route, in every
    table. *)
Lemma matchRoutes_folded {E} (rs : list (RouteObject E)) (p q : string) :
  lowerString p = lowerString q -> matchRoutes rs p = matchRoutes rs q.
Proof.
  intros H. apply matchRoutes_ext. intros r _.
  rewrite <- (matchPath_lower _ (locationPathname p)).
  rewrite <- (matchPath_lower _ (locationPathname q)).
  now rewrite (locationPathname_folded p q H).
Qed.

End SelectionFacts.

(* ------------------------------------------------------------------ *)
(** ** Route selection on the table: slashes, parameters, entries *)

Module TableFacts.
Import Js Gate Router App Navigation GateFacts GateMore RouterFacts.
Import SelectionFacts.

(** *** A slash at the end of the pathname *)






(** Replaces the compilation of a literal pattern by its value. *)
Ltac compile_pattern q :=
  let c := eval vm_compute in (compilePath q false) in
  change (compilePath q false) with c;
  cbn [tokens closing ignoreCase].


(** *** Decoding and the slash at the end *)







(** *** Decoding a segment *)

(** What is decoded from a string that is not empty is not empty. *)
Lemma decodeFrom_empty st pending (s : string) :
  decodeFrom st pending s = Some EmptyString -> s = EmptyString.
Proof.
  revert st pending. induction s as [|c s IH]; intros st pending H;
    [reflexivity|exfalso].
  cbn [decodeFrom] in H. destruct st as [| |h].
  - destruct (Ascii.eqb c percent).
    + specialize (IH _ _ H). subst s. discriminate H.
    + destruct pending; [|discriminate H].
      destruct (decodeFrom Plain [] s); discriminate H.
  - destruct (hexValue c); [|discriminate H].
    specialize (IH _ _ H). subst s. cbn in H.
    discriminate H.
  - destruct (hexValue c) as [l|]; [|discriminate H]. cbv zeta in H.
    destruct pending as [|[lo hi] ranges].
    + destruct (Nat.ltb (16 * h + l) 128).
      * destruct (decodeFrom Plain [] s); discriminate H.
      * destruct (leadRanges (16 * h + l)); [|discriminate H].
        destruct (decodeFrom Plain _ s); discriminate H.
    + destruct (between lo hi (16 * h + l)); [|discriminate H].
      destruct (decodeFrom Plain _ s); discriminate H.
Qed.

Lemma escapeSlashes_segment (s : string) :
  s <> EmptyString -> isSegment (escapeSlashes s) = true.
Proof.
  intros Hne. unfold isSegment. apply andb_true_intro. split.
  - destruct s as [|c s]; [congruence|]. cbn [escapeSlashes].
    destruct (Ascii.eqb c slash); reflexivity.
  - clear Hne. induction s as [|c s IH]; [reflexivity|].
    cbn [escapeSlashes]. destruct (Ascii.eqb c slash) eqn:Hc.
    + cbn. exact IH.
    + cbn [list_ascii_of_string forallb]. now rewrite Hc, IH.
Qed.

(** A decoded segment is a segment again. *)
Lemma decodeSegment_segment (id d : string) :
  isSegment id = true -> decodeSegment id = Some d -> isSegment d = true.
Proof.
  unfold decodeSegment, decodeURIComponent. intros Hid H.
  destruct (decodeFrom Plain [] id) as [x|] eqn:Hx; [|discriminate H].
  cbn in H. injection H as <-. apply escapeSlashes_segment.
  intros ->. apply decodeFrom_empty in Hx. subst id. discriminate Hid.
Qed.

Lemma split_segment (s : string) :
  forallb (fun c => negb (Ascii.eqb c slash)) (list_ascii_of_string s) = true ->
  split s = [s].
Proof.
  induction s as [|c s IH]; [reflexivity|].
  cbn [list_ascii_of_string forallb]. intros H.
  apply andb_prop in H. destruct H as [Hc Hs].
  cbn [split]. rewrite (IH Hs).
  destruct (Ascii.eqb c slash); [discriminate Hc|reflexivity].
Qed.

(** *** Parameters *)

(** A parameter that closes a pattern takes any one segment. *)
Lemma param_takes_segment ic (l : list ascii) :
  l <> [] ->
  forallb (fun c => negb (Ascii.eqb c slash)) l = true ->
  matchTokens ic EndSlashes [TParam] l = true.
Proof.
  induction l as [|x [|y l] IH]; intros Hne Hall; [congruence| |].
  - cbn in Hall. rewrite andb_true_r in Hall.
    rewrite matchTokens_param, Hall. reflexivity.
  - cbn [forallb] in Hall. apply andb_prop in Hall. destruct Hall as [Hx Hl].
    rewrite matchTokens_param, Hx, IH; [|discriminate|exact Hl].
    now rewrite orb_true_r.
Qed.

Lemma isSegment_chars (s : string) :
  isSegment s = true ->
  list_ascii_of_string s <> []
  /\ forallb (fun c => negb (Ascii.eqb c slash)) (list_ascii_of_string s)
     = true.
Proof.
  unfold isSegment. intros H. apply andb_prop in H. destruct H as [Hne Hall].
  split; [|exact Hall]. destruct s; [discriminate Hne|discriminate].
Qed.

Lemma split_join (s t : string) :
  split (s ++ String slash t) = (split s ++ split t)%list.
Proof.
  induction s as [|c s IH].
  - cbn [append split]. change (Ascii.eqb slash slash) with true.
    destruct (split t) eqn:Ht; [now destruct (split_nonempty t)|reflexivity].
  - cbn [append split]. rewrite IH.
    destruct (split s) as [|seg rest] eqn:Hs;
      [now destruct (split_nonempty s)|].
    cbn [app]. destruct (Ascii.eqb c slash); reflexivity.
Qed.

(** The decoded form of a literal first segment followed by one more
    segment: the same first segment, followed by a segment. *)
Lemma decodePath_under (name id : string) :
  split name = [name] ->
  decodeSegment name = Some name ->
  isSegment id = true ->
  exists d, isSegment d = true
            /\ decodePath (String slash (name ++ String slash id))
               = String slash (name ++ String slash d).
Proof.
  intros Hsplit Hname Hid. unfold decodePath.
  change (String slash (name ++ String slash id))
    with (EmptyString ++ String slash (name ++ String slash id))%string.
  rewrite !split_join, Hsplit.
  rewrite (split_segment id) by (apply isSegment_chars in Hid; tauto).
  change (split EmptyString) with [EmptyString].
  cbn [app decodeSegments]. rewrite Hname.
  change (decodeSegment EmptyString) with (Some EmptyString).
  destruct (decodeSegment id) as [d|] eqn:Hd.
  - exists d. split; [exact (decodeSegment_segment id d Hid Hd)|].
    cbn [String.concat append]. reflexivity.
  - exists id. split; [exact Hid|reflexivity].
Qed.

(** Evaluates the comparison of two given characters. *)
Ltac same_chars :=
  repeat (rewrite matchTokens_char;
          match goal with
          | |- context [sameChar true ?a ?b] =>
              let v := eval vm_compute in (sameChar true a b) in
              change (sameChar true a b) with v
          end; cbn [andb]).

(** Decides a literal pattern against a pathname that begins with a
    literal prefix and goes on with a segment. *)
Ltac match_prefix q :=
  unfold matchPath; compile_pattern q;
  rewrite list_ascii_app; cbn [list_ascii_of_string app];
  same_chars.

(** *** Entries *)

(** What the router shows is what the selected entry renders. *)
Lemma screen_unfold (p : string) (auth : AuthContext) :
  screen p auth
  = option_map (fun r => Console.result (render auth (element r)))
               (matchRoutes routes p).
Proof.
  unfold screen, AppRouter, Console.result.
  destruct (matchRoutes routes p) as [r|]; [|reflexivity].
  cbn [option_map]. unfold Console.bind, Console.ret.
  now destruct (render auth (element r) []).
Qed.

Lemma selected_in_table (p : string) r :
  matchRoutes routes p = Some r -> In r routes.
Proof.
  intros H. now apply matchRoutes_sound in H.
Qed.

(** The screen of a gate around a page, test by test. *)
Lemma gated_page_screen (auth : AuthContext) (R : list string) (v : view) :
  Console.result (render auth (Protected R (Page v))) =
  if loading auth then Spinner
  else if negb (truthy (currentUser auth)) then RedirectTo "/login"
  else if truthy (userRole auth) && includes R (userRole auth)
       then Shows v
       else RedirectTo "/unauthorized".
Proof.
  rewrite render_gated, gate_unfold.
  destruct (loading auth), (truthy (currentUser auth)),
    (truthy (userRole auth) && includes R (userRole auth)); reflexivity.
Qed.



End TableFacts.

(* ------------------------------------------------------------------ *)
(** ** The router as a whole: what every pathname and signal gets *)

Module RouterMore.
Import Js Gate Router App Scenario Navigation.
Import GateFacts GateMore RouterFacts SelectionFacts TableFacts.

(** Splits a hypothesis [In r routes] into the sixteen entries. *)
Ltac each_entry H :=
  cbn in H; repeat (destruct H as [<-|H]); try contradiction; cbn [element].




(** X6: the case of the letters of a pathname does not matter: two
    pathnames that are equal once their letters are put in lower case get
    the same entry, the same screen and the same console lines. *)
Theorem letter_case_is_ignored (p q : string) (auth : AuthContext) :
  lowerString p = lowerString q ->
  matchRoutes routes p = matchRoutes routes q
  /\ AppRouter p auth = AppRouter q auth.
Proof.
  intros H.
  assert (Hsel : matchRoutes routes p = matchRoutes routes q)
    by exact (matchRoutes_folded routes p q H).
  split; [exact Hsel|]. unfold AppRouter. now rewrite Hsel.
Qed.

Lemma letter_case_is_ignored_witness :
  lowerString "/User-Management" = lowerString "/user-management"
  /\ matchRoutes routes "/User-Management"
     = matchRoutes routes "/user-management"
  /\ AppRouter "/User-Management" worker = AppRouter "/user-management" worker.
Proof.
  exact (conj eq_refl
           (letter_case_is_ignored "/User-Management" "/user-management"
              worker eq_refl)).
Defined.



(** X8: the two routes with a parameter take any single segment as its
    value: [/youth-profiles/<id>] selects the youth detail entry and
    [/medication-logs/<id>] the medication log entry, for every non-empty
    [id] without a slash. *)
Theorem parameter_takes_any_segment (id : string) :
  isSegment id = true ->
  matchRoutes routes ("/youth-profiles/" ++ id)
  = Some (mkRoute "/youth-profiles/:id"
            (Protected ["admin"; "worker"; "foster_parent"] (Page YouthDetail)))
  /\ matchRoutes routes ("/medication-logs/" ++ id)
     = Some (mkRoute "/medication-logs/:youthId"
               (Protected ["admin"; "worker"; "foster_parent"]
                  (Page MedicationLog))).
Proof.
  intros Hid.
  assert (Hmatch : forall d, isSegment d = true ->
            matchPath "/youth-profiles/:id" false ("/youth-profiles/" ++ d)
            = true
            /\ matchPath "/youth-profiles/:id" false ("/medication-logs/" ++ d)
               = false
            /\ matchPath "/medication-logs/:youthId" false
                 ("/medication-logs/" ++ d) = true).
  { intros d Hd. apply isSegment_chars in Hd. destruct Hd as [Hne Hall].
    split; [|split].
    - match_prefix "/youth-profiles/:id". now apply param_takes_segment.
    - match_prefix "/youth-profiles/:id". reflexivity.
    - match_prefix "/medication-logs/:youthId". now apply param_takes_segment. }
  destruct (decodePath_under "youth-profiles" id eq_refl eq_refl Hid)
    as (d1 & Hd1 & Hdec1).
  destruct (decodePath_under "medication-logs" id eq_refl eq_refl Hid)
    as (d2 & Hd2 & Hdec2).
  destruct (Hmatch d1 Hd1) as (H1 & _ & _).
  destruct (Hmatch d2 Hd2) as (_ & H2 & H3).
  split; selection_chain.
  - change (locationPathname ("/youth-profiles/" ++ id))
      with (decodePath (String slash ("youth-profiles" ++ String slash id))).
    rewrite Hdec1.
    change (String slash ("youth-profiles" ++ String slash d1))
      with ("/youth-profiles/" ++ d1)%string.
    now rewrite H1.
  - change (locationPathname ("/medication-logs/" ++ id))
      with (decodePath (String slash ("medication-logs" ++ String slash id))).
    rewrite Hdec2.
    change (String slash ("medication-logs" ++ String slash d2))
      with ("/medication-logs/" ++ d2)%string.
    now rewrite H2, H3.
Qed.

Lemma parameter_takes_any_segment_witness :
  isSegment "a1b2" = true
  /\ matchRoutes routes "/youth-profiles/a1b2"
     = Some (mkRoute "/youth-profiles/:id"
               (Protected ["admin"; "worker"; "foster_parent"]
                  (Page YouthDetail))).
Proof.
  exact (conj eq_refl (proj1 (parameter_takes_any_segment "a1b2" eq_refl))).
Defined.

(** The entry selected for a pathname, when the router shows something. *)
Lemma screen_entry (p : string) (auth : AuthContext) (sc : Screen) :
  screen p auth = Some sc ->
  exists r, In r routes /\ matchRoutes routes p = Some r
            /\ Console.result (render auth (element r)) = sc.
Proof.
  rewrite screen_unfold. destruct (matchRoutes routes p) as [r|] eqn:Hsel;
    cbn [option_map]; [|discriminate].
  intros H. injection H as <-. exists r.
  split; [now apply selected_in_table in Hsel|]. split; reflexivity.
Qed.

(** X9: without a session nothing protected is shown: for every pathname,
    a resolved signal with no [currentUser] gets nothing, a redirect to
    [/login], or one of the open pages (Login, Register, Unauthorized,
    NotFound), whatever [userRole] holds. *)
Theorem no_session_sees_open_pages_only (p : string) (auth : AuthContext) :
  loading auth = false ->
  absent (currentUser auth) ->
  screen p auth = None
  \/ screen p auth = Some (RedirectTo "/login")
  \/ exists v, In v openViews /\ screen p auth = Some (Shows v).
Proof.
  intros Hl Hu. unfold absent in Hu.
  destruct (screen p auth) as [sc|] eqn:Hsc; [|now left].
  destruct (screen_entry p auth sc Hsc) as (r & Hin & _ & <-).
  each_entry Hin; try rewrite gated_page_screen, Hl, Hu; cbn;
    first [ now (right; left)
          | right; right; eexists; split; [|reflexivity]; cbn; tauto ].
Qed.

Lemma no_session_sees_open_pages_only_witness :
  loading (mkAuth VNull (VStr "admin") false) = false
  /\ absent (currentUser (mkAuth VNull (VStr "admin") false))
  /\ (screen "/user-management" (mkAuth VNull (VStr "admin") false) = None
      \/ screen "/user-management" (mkAuth VNull (VStr "admin") false)
         = Some (RedirectTo "/login")
      \/ exists v, In v openViews
                   /\ screen "/user-management"
                        (mkAuth VNull (VStr "admin") false)
                      = Some (Shows v)).
Proof.
  exact (conj eq_refl (conj eq_refl
           (no_session_sees_open_pages_only "/user-management"
              (mkAuth VNull (VStr "admin") false) eq_refl eq_refl))).
Defined.

(** X10: while the signal is resolving the router never redirects and never
    shows a protected page: every pathname gets nothing, the placeholder or
    an open page.  (The one bare redirect of the table is never selected.) *)
Theorem resolving_never_redirects (p : string) (auth : AuthContext) :
  loading auth = true ->
  screen p auth = None
  \/ screen p auth = Some Spinner
  \/ exists v, In v openViews /\ screen p auth = Some (Shows v).
Proof.
  intros Hl.
  destruct (screen p auth) as [sc|] eqn:Hsc; [|now left].
  destruct (screen_entry p auth sc Hsc) as (r & Hin & Hsel & <-).
  each_entry Hin; try rewrite gated_page_screen, Hl; cbn;
    first [ now (right; left)
          | right; right; eexists; split; [|reflexivity]; cbn; tauto
          | exfalso; exact (empty_route_never_selected p Hsel) ].
Qed.

Lemma resolving_never_redirects_witness :
  loading resolving = true
  /\ (screen "/" resolving = None
      \/ screen "/" resolving = Some Spinner
      \/ exists v, In v openViews /\ screen "/" resolving = Some (Shows v)).
Proof.
  exact (conj eq_refl (resolving_never_redirects "/" resolving eq_refl)).
Defined.

(** X11: every page on screen is accounted for by the table: a view is
    shown only if it is an open view, or if the signal is resolved, has a
    [currentUser], and its [userRole] is a non-empty member of the permitted
    roles of an entry that mounts this view behind a gate. *)
Theorem shown_page_is_permitted (p : string) (auth : AuthContext) (v : view) :
  screen p auth = Some (Shows v) ->
  In v openViews
  \/ (loading auth = false
      /\ present (currentUser auth)
      /\ present (userRole auth)
      /\ exists r R, In r routes /\ element r = Protected R (Page v)
                     /\ member (userRole auth) R).
Proof.
  intros Hsc.
  destruct (screen_entry p auth _ Hsc) as (r & Hin & _ & Hr).
  each_entry Hin; cbn [element] in Hr;
    match type of Hr with
    | Console.result (render auth (Page _)) = _ =>
        injection Hr as <-; left; cbn; tauto
    | Console.result (render auth (NavigateTo _)) = _ => discriminate Hr
    | Console.result (render auth (Protected ?R (Page ?w))) = _ =>
        rewrite gated_page_screen in Hr;
        destruct (loading auth); [discriminate Hr|];
        destruct (truthy (currentUser auth)) eqn:Hu;
          [|discriminate Hr];
        destruct (truthy (userRole auth) && includes R (userRole auth))
          eqn:Ht; [|discriminate Hr];
        cbn in Hr; injection Hr as <-;
        apply role_test_iff in Ht; destruct Ht as [Hp Hm];
        right; repeat split; try assumption;
        eexists (mkRoute _ (Protected R (Page w))); exists R;
        split; [|split; [reflexivity|exact Hm]];
        cbn; repeat (first [left; reflexivity | right])
    end.
Qed.

Lemma shown_page_is_permitted_witness :
  screen "/my-youth" fosterParent = Some (Shows YouthProfiles)
  /\ (In YouthProfiles openViews
      \/ (loading fosterParent = false
          /\ present (currentUser fosterParent)
          /\ present (userRole fosterParent)
          /\ exists r R, In r routes
                         /\ element r = Protected R (Page YouthProfiles)
                         /\ member (userRole fosterParent) R)).
Proof.
  exact (conj eq_refl
           (shown_page_is_permitted "/my-youth" fosterParent YouthProfiles
              eq_refl)).
Defined.

(** X12: the restricted pages stay restricted under every pathname: User
    Management and Agency Settings are shown only to the role [admin];
    Reports and Foster Parents only to [admin] or [worker]. *)
Theorem restricted_pages_stay_restricted
  (p : string) (auth : AuthContext) (v : view) :
  screen p auth = Some (Shows v) ->
  (In v [UserManagement; AgencySettings] -> userRole auth = VStr "admin")
  /\ (In v [Reports; FosterParents] ->
      userRole auth = VStr "admin" \/ userRole auth = VStr "worker").
Proof.
  intros Hsc.
  destruct (screen_entry p auth _ Hsc) as (r & Hin & _ & Hr).
  each_entry Hin; cbn [element] in Hr;
    match type of Hr with
    | Console.result (render auth (Page _)) = _ =>
        injection Hr as <-
    | Console.result (render auth (NavigateTo _)) = _ => discriminate Hr
    | Console.result (render auth (Protected ?R (Page ?w))) = _ =>
        rewrite gated_page_screen in Hr;
        destruct (loading auth); [discriminate Hr|];
        destruct (truthy (currentUser auth)); [|discriminate Hr];
        destruct (truthy (userRole auth) && includes R (userRole auth))
          eqn:Ht; [|discriminate Hr];
        cbn in Hr; injection Hr as <-;
        apply role_test_iff in Ht; destruct Ht as [_ (r0 & Hr0 & ->)];
        cbn in Hr0
    end;
    (split; intros Hv; cbn in Hv;
     first [ exfalso; clear - Hv; intuition discriminate
           | intuition (subst; auto) ]).
Qed.

Lemma restricted_pages_stay_restricted_witness :
  screen "/agency-settings/" (mkAuth (VObj 7) (VStr "admin") false)
  = Some (Shows AgencySettings)
  /\ userRole (mkAuth (VObj 7) (VStr "admin") false) = VStr "admin".
Proof.
  refine (conj eq_refl _).
  exact (proj1 (restricted_pages_stay_restricted "/agency-settings/"
                  (mkAuth (VObj 7) (VStr "admin") false) AgencySettings
                  eq_refl)
           (or_intror (or_introl eq_refl))).
Defined.



(** Rendering looks at [currentUser] only to see whether it is there. *)
Lemma render_user (user user' role : value) (l : bool) (e : jsx) :
  truthy user = truthy user' ->
  render (mkAuth user role l) e = render (mkAuth user' role l) e.
Proof.
  intros H. induction e as [v|to|R c IH]; [reflexivity|reflexivity|].
  cbn [render]. rewrite IH. unfold ProtectedRoute.
  cbn [loading currentUser userRole]. now rewrite H.
Qed.

(** X14: who the user is stays out of sight: for every pathname, two
    signals that differ only in [currentUser], both present or both absent,
    get the same screen and the same console lines. *)
Theorem user_identity_is_not_observed
  (p : string) (user user' role : value) (l : bool) :
  truthy user = truthy user' ->
  AppRouter p (mkAuth user role l) = AppRouter p (mkAuth user' role l).
Proof.
  intros H. unfold AppRouter.
  destruct (matchRoutes routes p) as [r|]; [|reflexivity].
  now rewrite (render_user user user' role l (element r) H).
Qed.

Lemma user_identity_is_not_observed_witness :
  truthy (VStr "u1") = truthy (VObj 7)
  /\ AppRouter "/reports" (mkAuth (VStr "u1") (VStr "worker") false)
     = AppRouter "/reports" (mkAuth (VObj 7) (VStr "worker") false).
Proof.
  exact (conj eq_refl
           (user_identity_is_not_observed "/reports" (VStr "u1") (VObj 7)
              (VStr "worker") false eq_refl)).
Defined.

End RouterMore.
